(** * Cafe_API: a Flask REST service over one SQLite table

    A shallow embedding of [main.py] and [route_utils/route_helpers.py].
    Python values that may be [None] are [option]s, the JSON documents built
    by [jsonify] are a small tree type, the [cafe] table is the list of its
    rows in rowid order, and the SQLAlchemy session is an explicit state that
    the write handlers thread through a state-and-exception monad. *)

From Stdlib Require Import String Ascii List ZArith Bool Lia.
From Stdlib Require Import Sorting.Sorted Sorting.Permutation.
Import ListNotations.
Open Scope string_scope.
Open Scope Z_scope.

(** ** Python values *)

Module Py.

(** A [str] that may be [None] ([request.args.get], a nullable attribute). *)
Definition optstr := option string.

(** [bool(x)] for [x : str | None]. *)
Definition truthy (x : optstr) : bool :=
  match x with
  | None => false
  | Some s => negb (s =? "")%string
  end.

(** [x or d] where [d] is a [str]. *)
Definition or_else (x : optstr) (d : string) : string :=
  match x with
  | Some s => if truthy x then s else d
  | None => d
  end.

(** [x == y] on [str | None]. *)
Definition eqb (x y : optstr) : bool :=
  match x, y with
  | None, None => true
  | Some a, Some b => (a =? b)%string
  | _, _ => false
  end.

(** [needle in hay] on strings. *)
Fixpoint contains (needle hay : string) : bool :=
  if String.prefix needle hay then true
  else match hay with
       | EmptyString => false
       | String _ rest => contains needle rest
       end.

(** Equality of integers that may be [None] (a primary key before flush). *)
Definition int_eqb (x y : option Z) : bool :=
  match x, y with
  | None, None => true
  | Some a, Some b => (a =? b)%Z
  | _, _ => false
  end.

End Py.

(** ** JSON documents, as [jsonify] receives them *)

#[warnings="-register-all"]
Inductive json : Type :=
| JNull
| JBool (b : bool)
| JNum (n : Z)
| JStr (s : string)
| JArr (items : list json)
| JObj (members : list (string * json)).

(** A Python [dict] literal with string keys, in source order. *)
Definition dict := list (string * json).

Fixpoint dict_get (key : string) (d : dict) : option json :=
  match d with
  | [] => None
  | (k, v) :: rest => if (k =? key)%string then Some v else dict_get key rest
  end.

Definition keys (d : dict) : list string := map fst d.

Definition json_of_optstr (x : Py.optstr) : json :=
  match x with
  | None => JNull
  | Some s => JStr s
  end.

(** A Flask view's return value [jsonify(...), status]. *)
Definition response : Type := json * Z.

(** [jsonify(k=v)]: an object with the keyword arguments as members. *)
Definition jsonify (kwargs : dict) : json := JObj kwargs.

(** ** The record mapper: [class Cafe(db.Model)] *)

Record Cafe : Type := mkCafe {
  id : option Z;              (* None until the row is flushed *)
  name : Py.optstr;
  map_url : Py.optstr;
  img_url : Py.optstr;
  location : Py.optstr;
  seats : Py.optstr;
  has_toilet : bool;
  has_wifi : bool;
  has_sockets : bool;
  can_take_calls : bool;
  coffee_price : Py.optstr
}.

(** The eleven mapped columns, in declaration order. *)
Definition columns : list string :=
  ["id"; "name"; "map_url"; "img_url"; "location"; "seats"; "has_toilet";
   "has_wifi"; "has_sockets"; "can_take_calls"; "coffee_price"].

(** ** The request: query string and form body (werkzeug MultiDicts) *)

Record request : Type := mkRequest {
  args : list (string * string);
  form : list (string * string)
}.

(** [MultiDict.get(key)]: the first value stored under [key], else [None]. *)
Fixpoint get (key : string) (d : list (string * string)) : Py.optstr :=
  match d with
  | [] => None
  | (k, v) :: rest => if (k =? key)%string then Some v else get key rest
  end.

(** ** route_utils/route_helpers.py *)

(** What [many_responses] is handed: a [list] (from [Query.all()]) or a
    [ScalarResult] (from [Result.scalars()]).  Both iterate over the rows;
    only the list has a length, so only the list can be falsy. *)
Inductive py_iterable : Type :=
| PyList (items : list Cafe)
| ScalarResult (rows : list Cafe).

Definition iterate (x : py_iterable) : list Cafe :=
  match x with
  | PyList items => items
  | ScalarResult rows => rows
  end.

(** [bool(x)]: a list is truthy when non-empty; [ScalarResult] defines
    neither [__bool__] nor [__len__], so the object is always truthy. *)
Definition iterable_truthy (x : py_iterable) : bool :=
  match x with
  | PyList [] => false
  | PyList (_ :: _) => true
  | ScalarResult _ => true
  end.

Definition get_cafe_response (cafe : Cafe) : dict :=
  [ ("name", json_of_optstr (name cafe));
    ("map_url", JStr (Py.or_else (map_url cafe) "N/A"));
    ("img_url", JStr (Py.or_else (img_url cafe) "N/A"));
    ("location", json_of_optstr (location cafe));
    ("seats", json_of_optstr (seats cafe));
    ("has_toilet", JBool (has_toilet cafe));
    ("has_wifi", JBool (has_wifi cafe));
    ("has_sockets", JBool (has_sockets cafe));
    ("can_take_calls", JBool (can_take_calls cafe));
    ("coffee_price", json_of_optstr (coffee_price cafe)) ].

Definition not_found_payload : json :=
  jsonify [("error", JObj [("Not Found", JStr "No cafes found in the database")])].

Definition many_responses (all_cafes : py_iterable) : response :=
  if negb (iterable_truthy all_cafes) then
    (not_found_payload, 404)
  else
    let response := map (fun cafe => JObj (get_cafe_response cafe)) (iterate all_cafes) in
    (jsonify [("cafes", JArr response)], 200).

Definition new_cafe_check (req : request) : Cafe :=
  {| id := None;
     name := get "name" (form req);
     map_url := get "map_url" (form req);
     img_url := get "img_url" (form req);
     location := get "loc" (form req);
     has_sockets := Py.truthy (get "sockets" (form req));
     has_toilet := Py.truthy (get "toilet" (form req));
     has_wifi := Py.truthy (get "wifi" (form req));
     can_take_calls := Py.truthy (get "calls" (form req));
     seats := get "seats" (form req);
     coffee_price := get "coffee_price" (form req) |}.

(** ** The storage layer: the [cafe] table, the session, SQLite's checks *)

(** Exceptions that reach the handlers. *)
Inductive exn : Type :=
| IntegrityError (orig : string)     (* sqlalchemy.exc.IntegrityError *)
| OperationalError (orig : string)   (* sqlalchemy.exc.OperationalError *)
| NotFound (description : string).   (* werkzeug.exceptions.NotFound *)

(** [repr(error)]: the class name and the message the exception was built
    with; an HTTP exception prints its code and name. *)
Definition repr (error : exn) : string :=
  match error with
  | IntegrityError orig =>
      "IntegrityError('(sqlite3.IntegrityError) " ++ orig ++ "')"
  | OperationalError orig =>
      "OperationalError('(sqlite3.OperationalError) " ++ orig ++ "')"
  | NotFound _ => "<NotFound '404: Not Found'>"
  end.

(** What the process reads from outside the request: the secret from the
    environment, whether the driver fails when the transaction is committed
    (and with which message), and the values [random()] yields per row. *)
Record environ : Type := mkEnviron {
  SECRET_API : Py.optstr;
  commit_fault : option string;
  random : nat -> Z
}.

(** Unflushed changes held by the session. *)
Inductive change : Type :=
| Insert (obj : Cafe)                              (* session.add *)
| SetCoffeePrice (pk : option Z) (v : Py.optstr)   (* attribute assignment *)
| Delete (pk : option Z).                          (* session.delete *)

(** The session calls a handler makes, oldest first. *)
Inductive call : Type := CallAdd | CallDelete | CallCommit | CallRollback | CallClose.

Record world : Type := mkWorld {
  table : list Cafe;       (* committed rows, in rowid order *)
  pending : list change;
  log : list call
}.

(** The state at the start of a request. *)
Definition fresh (tbl : list Cafe) : world :=
  {| table := tbl; pending := []; log := [] |}.

(** The first [nullable=False] column of [obj] that holds NULL.  The four
    booleans are never NULL. *)
Definition first_null (obj : Cafe) : option string :=
  match name obj, map_url obj, img_url obj, location obj, seats obj with
  | None, _, _, _, _ => Some "name"
  | _, None, _, _, _ => Some "map_url"
  | _, _, None, _, _ => Some "img_url"
  | _, _, _, None, _ => Some "location"
  | _, _, _, _, None => Some "seats"
  | _, _, _, _, _ => None
  end.

(** The rowid SQLite gives an INTEGER PRIMARY KEY left NULL: one more than
    the largest in use, 1 in an empty table. *)
Definition next_rowid (tbl : list Cafe) : Z :=
  1 + fold_right (fun r m => match id r with Some k => Z.max k m | None => m end) 0 tbl.

Definition set_id (k : Z) (c : Cafe) : Cafe :=
  {| id := Some k; name := name c; map_url := map_url c; img_url := img_url c;
     location := location c; seats := seats c; has_toilet := has_toilet c;
     has_wifi := has_wifi c; has_sockets := has_sockets c;
     can_take_calls := can_take_calls c; coffee_price := coffee_price c |}.

Definition set_coffee_price (v : Py.optstr) (c : Cafe) : Cafe :=
  {| id := id c; name := name c; map_url := map_url c; img_url := img_url c;
     location := location c; seats := seats c; has_toilet := has_toilet c;
     has_wifi := has_wifi c; has_sockets := has_sockets c;
     can_take_calls := can_take_calls c; coffee_price := v |}.

(** One statement against the table.  An INSERT checks NOT NULL first, then
    the primary key, then UNIQUE(name), as SQLite does. *)
Definition apply_change (ch : change) (tbl : list Cafe) : exn + list Cafe :=
  match ch with
  | Insert obj =>
      match first_null obj with
      | Some col => inl (IntegrityError ("NOT NULL constraint failed: cafe." ++ col))
      | None =>
          let pk_taken := match id obj with
                          | Some k => existsb (fun r => Py.int_eqb (id r) (Some k)) tbl
                          | None => false
                          end in
          if pk_taken then
            inl (IntegrityError "UNIQUE constraint failed: cafe.id")
          else if existsb (fun r => Py.eqb (name r) (name obj)) tbl then
            inl (IntegrityError "UNIQUE constraint failed: cafe.name")
          else
            let k := match id obj with Some k => k | None => next_rowid tbl end in
            inr (tbl ++ [set_id k obj])%list
      end
  | SetCoffeePrice pk v =>
      inr (map (fun r => if Py.int_eqb (id r) pk then set_coffee_price v r else r) tbl)
  | Delete pk =>
      inr (filter (fun r => negb (Py.int_eqb (id r) pk)) tbl)
  end.

(** The flush: every pending change in order, stopping at the first error. *)
Fixpoint flush (changes : list change) (tbl : list Cafe) : exn + list Cafe :=
  match changes with
  | [] => inr tbl
  | ch :: rest =>
      match apply_change ch tbl with
      | inl e => inl e
      | inr tbl' => flush rest tbl'
      end
  end.

(** ** Handlers as state-and-exception computations *)

Inductive result (A : Type) : Type :=
| Ok (a : A)
| Raise (e : exn).
Arguments Ok {A} a.
Arguments Raise {A} e.

Definition M (A : Type) : Type := world -> result A * world.

Definition ret {A} (a : A) : M A := fun w => (Ok a, w).

Definition bind {A B} (m : M A) (k : A -> M B) : M B :=
  fun w => match m w with
           | (Ok a, w') => k a w'
           | (Raise e, w') => (Raise e, w')
           end.

Declare Scope py_scope.
Delimit Scope py_scope with py.
Notation "x <- m ;; k" := (bind m (fun x => k))
  (at level 61, m at next level, right associativity) : py_scope.
Notation "m ;; k" := (bind m (fun _ => k))
  (at level 61, right associativity) : py_scope.

(** [try: body / except Exception as error: handler / finally: final].
    Every exception of the model is an [Exception], so the clause
    [except (Exception, IntegrityError)] catches all of them. *)
Definition try_except_finally {A} (body : M A) (handler : exn -> M A)
    (final : M unit) : M A :=
  fun w =>
    let '(r, w1) := match body w with
                    | (Ok a, w') => (Ok a, w')
                    | (Raise e, w') => handler e w'
                    end in
    match final w1 with
    | (Ok _, w2) => (r, w2)
    | (Raise e, w2) => (Raise e, w2)
    end.

Definition record (c : call) (w : world) : world :=
  {| table := table w; pending := pending w; log := (log w ++ [c])%list |}.

Definition session_add (obj : Cafe) : M unit :=
  fun w => (Ok tt, {| table := table w; pending := (pending w ++ [Insert obj])%list;
                      log := (log w ++ [CallAdd])%list |}).

Definition session_delete (obj : Cafe) : M unit :=
  fun w => (Ok tt, {| table := table w; pending := (pending w ++ [Delete (id obj)])%list;
                      log := (log w ++ [CallDelete])%list |}).

(** [obj.coffee_price = v] on an object attached to the session. *)
Definition assign_coffee_price (obj : Cafe) (v : Py.optstr) : M unit :=
  fun w => (Ok tt, {| table := table w;
                      pending := (pending w ++ [SetCoffeePrice (id obj) v])%list;
                      log := log w |}).

(** [db.session.commit()]: flush, then COMMIT.  A failed flush or a driver
    fault raises and leaves the table as it was. *)
Definition session_commit (env : environ) : M unit :=
  fun w =>
    match flush (pending w) (table w) with
    | inl e => (Raise e, record CallCommit w)
    | inr tbl' =>
        match commit_fault env with
        | Some msg => (Raise (OperationalError msg), record CallCommit w)
        | None => (Ok tt, {| table := tbl'; pending := []; log := (log w ++ [CallCommit])%list |})
        end
    end.

Definition session_rollback : M unit :=
  fun w => (Ok tt, {| table := table w; pending := []; log := (log w ++ [CallRollback])%list |}).

Definition session_close : M unit :=
  fun w => (Ok tt, {| table := table w; pending := []; log := (log w ++ [CallClose])%list |}).

(** [db.session.get(Cafe, pk)]. *)
Definition db_get (tbl : list Cafe) (pk : Z) : option Cafe :=
  find (fun r => Py.int_eqb (id r) (Some pk)) tbl.

Definition get_or_404 (pk : Z) (description : string) : M Cafe :=
  fun w => match db_get (table w) pk with
           | Some obj => (Ok obj, w)
           | None => (Raise (NotFound description), w)
           end.

(** What the client gets once Flask has run a view: the view's response, the
    error page of an HTTP exception, or an exception nobody handled. *)
Inductive outcome : Type :=
| Responded (r : response)
| Aborted (code : Z) (description : string)
| Unhandled (e : exn).

Definition dispatch (view : M response) (w : world) : outcome * world :=
  match view w with
  | (Ok r, w') => (Responded r, w')
  | (Raise (NotFound d), w') => (Aborted 404 d, w')
  | (Raise e, w') => (Unhandled e, w')
  end.

(** ** Queries *)

(** [ORDER BY] as a stable insertion sort on a boolean order. *)
Fixpoint insert_row {A} (leb : A -> A -> bool) (x : A) (l : list A) : list A :=
  match l with
  | [] => [x]
  | y :: rest => if leb x y then x :: l else y :: insert_row leb x rest
  end.

Fixpoint order_by {A} (leb : A -> A -> bool) (l : list A) : list A :=
  match l with
  | [] => []
  | x :: rest => insert_row leb x (order_by leb rest)
  end.

(** SQLite's BINARY collation on a nullable TEXT column: NULL sorts first,
    strings compare byte by byte. *)
Definition optstr_leb (x y : Py.optstr) : bool :=
  match x, y with
  | None, _ => true
  | Some _, None => false
  | Some a, Some b => String.leb a b
  end.

(** [order_by(Cafe.name)]. *)
Definition by_name (a b : Cafe) : bool := optstr_leb (name a) (name b).

(** [order_by(db.func.random())]: each scanned row draws a value and the
    rows are sorted on it. *)
Definition order_by_random (env : environ) (tbl : list Cafe) : list Cafe :=
  map snd
    (order_by (fun a b => Z.leb (fst a) (fst b))
       (combine (map (random env) (seq 0 (length tbl))) tbl)).

(** [filter_by(location=loc)]: equality, or IS NULL when [loc] is [None]. *)
Definition filter_by_location (loc : Py.optstr) (tbl : list Cafe) : list Cafe :=
  filter (fun r => Py.eqb (location r) loc) tbl.

(** ** main.py *)

Open Scope py_scope.

Definition random_cafe (env : environ) (tbl : list Cafe) : response :=
  let random_cafe := hd_error (order_by_random env tbl) in
  match random_cafe with
  | None =>
      (jsonify [("error", JObj [("Not Found", JStr "No cafes found in the database")])], 404)
  | Some random_cafe =>
      (jsonify [("cafe", JObj (get_cafe_response random_cafe))], 200)
  end.

Definition all_cafes (tbl : list Cafe) : response :=
  let all_cafes := ScalarResult (order_by by_name tbl) in
  many_responses all_cafes.

Definition search_cafe (req : request) (tbl : list Cafe) : response :=
  let loc := get "loc" (args req) in
  let all_cafes := PyList (order_by by_name (filter_by_location loc tbl)) in
  many_responses all_cafes.

Definition add_cafe (env : environ) (req : request) : M response :=
  try_except_finally
    (let new_cafe := new_cafe_check req in
     session_add new_cafe ;;
     session_commit env ;;
     ret (jsonify [("success", JObj [("success", JStr "Successfully added the new cafe")])], 200))
    (fun error =>
       session_rollback ;;
       let error_string := repr error in
       if Py.contains "NOT NULL constraint failed" error_string then
         ret (jsonify [("error", JObj [("error", JStr "Missing input parameters")])], 400)
       else if Py.contains "UNIQUE constraint failed" error_string then
         ret (jsonify [("error", JObj [("error", JStr "Duplicate entry")])], 400)
       else
         ret (jsonify [("error", JObj [("error", JStr "Error writing to database")])], 400))
    session_close.

(** [if cafe_query:] is always taken: a mapped object is truthy. *)
Definition update_price (env : environ) (req : request) (cafe_id : Z) : M response :=
  if negb (Py.truthy (get "new_price" (args req))) then
    ret (jsonify [("error", JObj [("error", JStr "coffee_price cannot be null.")])], 400)
  else
    cafe_query <- get_or_404 cafe_id "This ID Does not Exist." ;;
    try_except_finally
      (assign_coffee_price cafe_query (get "new_price" (args req)) ;;
       session_commit env ;;
       ret (jsonify [("success", JObj [("success", JStr "Successfully added the new cafe")])], 200))
      (fun error =>
         session_rollback ;;
         let error_string := repr error in
         if Py.contains "NOT NULL constraint failed" error_string then
           ret (jsonify [("error", JObj [("error", JStr "Missing input parameters")])], 400)
         else if Py.contains "UNIQUE constraint failed" error_string then
           ret (jsonify [("error", JObj [("error", JStr "Duplicate entry")])], 400)
         else
           ret (jsonify [("error", JObj [("error", JStr "Error writing to database")])], 400))
      session_close.

Definition delete_cafe (env : environ) (req : request) (cafe_id : Z) : M response :=
  let api_key := get "api-key" (args req) in
  if negb (Py.truthy api_key) || negb (Py.eqb api_key (SECRET_API env)) then
    ret (jsonify [("error", JObj [("error", JStr "Not Authorized to perform this action.")])], 403)
  else
    cafe_query <- get_or_404 cafe_id "This ID Does not Exist." ;;
    session_delete cafe_query ;;
    session_commit env ;;
    session_close ;;
    ret (jsonify [("success", JObj [("success", JStr "Successfully added the new cafe")])], 200).

Close Scope py_scope.

(** ** Vocabulary of the statements *)

(** The four boolean attributes with the form field each is read from. *)
Definition boolean_fields : list (string * (Cafe -> bool)) :=
  [("sockets", has_sockets); ("toilet", has_toilet);
   ("wifi", has_wifi); ("calls", can_take_calls)].

(** Rows as the table constraints leave them: a primary key and no NULL in a
    [nullable=False] column. *)
Definition stored (r : Cafe) : Prop := id r <> None /\ first_null r = None.

(** The three [except] branches, as a function of [repr(error)]. *)
Definition failure_response (error_string : string) : response :=
  if Py.contains "NOT NULL constraint failed" error_string then
    (jsonify [("error", JObj [("error", JStr "Missing input parameters")])], 400)
  else if Py.contains "UNIQUE constraint failed" error_string then
    (jsonify [("error", JObj [("error", JStr "Duplicate entry")])], 400)
  else
    (jsonify [("error", JObj [("error", JStr "Error writing to database")])], 400).

Definition success_response : response :=
  (jsonify [("success", JObj [("success", JStr "Successfully added the new cafe")])], 200).

(** The error a commit of [changes] on [tbl] raises, if any. *)
Definition commit_error (env : environ) (changes : list change) (tbl : list Cafe)
  : option exn :=
  match flush changes tbl with
  | inl e => Some e
  | inr _ => option_map OperationalError (commit_fault env)
  end.


(** Primary keys and names occur once each: the PRIMARY KEY and UNIQUE
    constraints of the table. *)
Definition unique_keys (tbl : list Cafe) : Prop :=
  NoDup (map id tbl) /\ NoDup (map name tbl).

(** The JSON array a list endpoint puts under "cafes". *)
Definition listing (rows : list Cafe) : response :=
  (jsonify [("cafes", JArr (map (fun cafe => JObj (get_cafe_response cafe)) rows))], 200).

(** The random values under which row [i] draws 0 and every other row 1. *)
Definition favouring (i : nat) (env : environ) : environ :=
  {| SECRET_API := SECRET_API env; commit_fault := commit_fault env;
     random := fun n => if Nat.eqb n i then 0 else 1 |}.

(** The tables the service can get to from [start] by any sequence of write
    requests, under any behaviour of the driver.  Read requests leave the
    table alone. *)
Inductive reachable_from (start : list Cafe) : list Cafe -> Prop :=
| reach_start : reachable_from start start
| reach_add (env : environ) (req : request) (tbl : list Cafe) :
    reachable_from start tbl ->
    reachable_from start (table (snd (dispatch (add_cafe env req) (fresh tbl))))
| reach_update (env : environ) (req : request) (cafe_id : Z) (tbl : list Cafe) :
    reachable_from start tbl ->
    reachable_from start
      (table (snd (dispatch (update_price env req cafe_id) (fresh tbl))))
| reach_delete (env : environ) (req : request) (cafe_id : Z) (tbl : list Cafe) :
    reachable_from start tbl ->
    reachable_from start
      (table (snd (dispatch (delete_cafe env req cafe_id) (fresh tbl)))).

(** ** Example data *)

(** The two rows of the example in [search_cafe]'s docstring. *)
Definition cafe_a : Cafe :=
  {| id := Some 1; name := Some "Cafe A";
     map_url := Some "https://maps.google.com/cafeA";
     img_url := Some "https://cafeA.com/image.jpg";
     location := Some "City A"; seats := Some "50";
     has_toilet := true; has_wifi := true; has_sockets := true;
     can_take_calls := false; coffee_price := Some "$3.50" |}.

Definition cafe_b : Cafe :=
  {| id := Some 2; name := Some "Cafe B";
     map_url := Some "https://maps.google.com/cafeB";
     img_url := Some "https://cafeB.com/image.jpg";
     location := Some "City A"; seats := Some "30";
     has_toilet := true; has_wifi := true; has_sockets := true;
     can_take_calls := true; coffee_price := Some "$4.00" |}.

Definition example_env : environ :=
  {| SECRET_API := Some "TopSecretAPIKey"; commit_fault := None;
     random := fun n => Z.of_nat n |}.

(** The same process while another writer holds the database. *)
Definition locked_env : environ :=
  {| SECRET_API := Some "TopSecretAPIKey";
     commit_fault := Some "database is locked";
     random := fun n => Z.of_nat n |}.

(** A process started with [SECRET_API=] in its environment. *)
Definition empty_secret_env : environ :=
  {| SECRET_API := Some ""; commit_fault := None; random := fun n => Z.of_nat n |}.

Definition example_add_request : request :=
  {| args := [];
     form := [("name", "Cafe C"); ("map_url", "https://maps.google.com/cafeC");
              ("img_url", "https://cafeC.com/image.jpg"); ("loc", "City C");
              ("sockets", "false"); ("toilet", ""); ("calls", "yes");
              ("seats", "20-30"); ("coffee_price", "$2.80")] |}.

Definition duplicate_add_request : request :=
  {| args := [];
     form := [("name", "Cafe A"); ("map_url", "https://maps.google.com/other");
              ("img_url", "https://other.com/image.jpg"); ("loc", "City D");
              ("seats", "5")] |}.

Definition authorised_delete_request : request :=
  {| args := [("api-key", "TopSecretAPIKey")]; form := [] |}.


Definition price_request : request :=
  {| args := [("new_price", "4.50")]; form := [] |}.

Definition no_parameters : request := {| args := []; form := [] |}.

(** A process whose driver fails at commit with a message that quotes a
    constraint of some other table. *)
Definition quoting_fault_env : environ :=
  {| SECRET_API := Some "TopSecretAPIKey";
     commit_fault := Some "audit log: NOT NULL constraint failed: audit.who";
     random := fun n => Z.of_nat n |}.

Definition search_city_a : request :=
  {| args := [("loc", "City A")]; form := [] |}.

(** * Properties *)

(** ** Sorting *)

Section OrderBy.
Context {A : Type} (leb : A -> A -> bool).

Lemma insert_row_perm (x : A) (l : list A) :
  Permutation (insert_row leb x l) (x :: l).
Proof.
  induction l as [|y rest IH]; simpl.
  - apply Permutation_refl.
  - destruct (leb x y).
    + apply Permutation_refl.
    + eapply Permutation_trans.
      * apply perm_skip, IH.
      * apply perm_swap.
Qed.

Lemma order_by_perm (l : list A) : Permutation (order_by leb l) l.
Proof.
  induction l as [|x rest IH]; simpl.
  - apply perm_nil.
  - eapply Permutation_trans.
    + apply insert_row_perm.
    + apply perm_skip, IH.
Qed.

Lemma order_by_In (l : list A) (x : A) : In x (order_by leb l) <-> In x l.
Proof.
  split; apply Permutation_in.
  - apply order_by_perm.
  - apply Permutation_sym, order_by_perm.
Qed.

Lemma order_by_nil_iff (l : list A) : order_by leb l = [] <-> l = [].
Proof.
  split; intros H.
  - pose proof (order_by_perm l) as P. rewrite H in P.
    now apply Permutation_nil in P.
  - now subst.
Qed.

Hypothesis leb_total : forall x y, leb x y = true \/ leb y x = true.

Let le (x y : A) : Prop := leb x y = true.

Lemma insert_row_hd (x a : A) (l : list A) :
  le a x -> HdRel le a l -> HdRel le a (insert_row leb x l).
Proof.
  intros Hax Hal. destruct l as [|y rest]; simpl.
  - now constructor.
  - destruct (leb x y); constructor; trivial.
    now inversion Hal.
Qed.

Lemma insert_row_sorted (x : A) (l : list A) :
  Sorted le l -> Sorted le (insert_row leb x l).
Proof.
  induction 1 as [|y rest Hs IH Hhd]; simpl.
  - repeat constructor.
  - destruct (leb x y) eqn:E.
    + constructor; [now constructor | now constructor].
    + constructor; [exact IH|].
      apply insert_row_hd; trivial.
      destruct (leb_total x y) as [H|H]; [congruence | exact H].
Qed.

Lemma order_by_sorted (l : list A) : Sorted le (order_by leb l).
Proof.
  induction l as [|x rest IH]; simpl.
  - constructor.
  - now apply insert_row_sorted.
Qed.

End OrderBy.

Lemma by_name_total (a b : Cafe) : by_name a b = true \/ by_name b a = true.
Proof.
  unfold by_name, optstr_leb.
  destruct (name a) as [x|], (name b) as [y|]; auto.
  apply String.leb_total.
Qed.

(** ** The response formatter *)

(** The ten keys of the projection: every column except [id]. *)
Lemma get_cafe_response_keys (cafe : Cafe) :
  keys (get_cafe_response cafe) = tl columns.
Proof. reflexivity. Qed.

(** The URL fields fall back to "N/A" when [None] or empty; [name] and
    [location] are copied as they are, [None] included. *)
Lemma get_cafe_response_values (cafe : Cafe) :
  dict_get "name" (get_cafe_response cafe) = Some (json_of_optstr (name cafe)) /\
  dict_get "location" (get_cafe_response cafe) = Some (json_of_optstr (location cafe)) /\
  dict_get "map_url" (get_cafe_response cafe)
    = Some (JStr (match map_url cafe with
                  | None | Some "" => "N/A"
                  | Some url => url
                  end)) /\
  dict_get "img_url" (get_cafe_response cafe)
    = Some (JStr (match img_url cafe with
                  | None | Some "" => "N/A"
                  | Some url => url
                  end)).
Proof.
  repeat split; try reflexivity; simpl.
  - destruct (map_url cafe) as [[|c u]|]; reflexivity.
  - destruct (img_url cafe) as [[|c u]|]; reflexivity.
Qed.

(** On a list the formatter does what its comment says. *)
Lemma many_responses_list (items : list Cafe) :
  (items = [] -> many_responses (PyList items) = (not_found_payload, 404)) /\
  (items <> [] ->
   many_responses (PyList items)
   = (jsonify [("cafes", JArr (map (fun cafe => JObj (get_cafe_response cafe)) items))], 200)).
Proof.
  split; intros H.
  - now subst.
  - destruct items; [congruence | reflexivity].
Qed.

(** On a [ScalarResult] the emptiness test never fires. *)
Lemma many_responses_scalars (rows : list Cafe) :
  many_responses (ScalarResult rows)
  = (jsonify [("cafes", JArr (map (fun cafe => JObj (get_cafe_response cafe)) rows))], 200).
Proof. reflexivity. Qed.

(** C1. The list formatter answers 404 with the Not-Found payload on an empty
    list and 200 with the projections under "cafes" on a non-empty one, but
    GET /api/all hands it the [ScalarResult] itself, so on an empty table the
    answer is 200 with an empty "cafes" array and not 404. *)
Theorem all_cafes_empty_table_is_200 :
  all_cafes [] = (jsonify [("cafes", JArr [])], 200) /\
  all_cafes [] <> (not_found_payload, 404) /\
  search_cafe (mkRequest [] []) [] = (not_found_payload, 404).
Proof.
  repeat split. discriminate.
Qed.

(** C2. The projection of an entity has no "id" member although [id] is a
    mapped column: ten of the eleven fields are projected. *)
Theorem get_cafe_response_omits_id (cafe : Cafe) :
  In "id" columns /\
  dict_get "id" (get_cafe_response cafe) = None /\
  length (get_cafe_response cafe) = 10%nat /\
  length columns = 11%nat.
Proof.
  repeat split. simpl. auto.
Qed.

(** ** The entity builder *)

Lemma truthy_cases (x : Py.optstr) :
  ((x = None \/ x = Some "") -> Py.truthy x = false) /\
  (forall s, s <> "" -> x = Some s -> Py.truthy x = true).
Proof.
  split.
  - intros [-> | ->]; reflexivity.
  - intros s Hs ->. simpl. destruct s; [congruence | reflexivity].
Qed.

(** C8. Each boolean attribute of the built entity is the truthiness of its
    raw form value: false when the field is absent or empty, true for every
    non-empty string, the string "false" included. *)
Theorem new_cafe_check_booleans (req : request) :
  Forall (fun '(field, attr) =>
            let raw := get field (form req) in
            ((raw = None \/ raw = Some "") -> attr (new_cafe_check req) = false) /\
            (forall s, s <> "" -> raw = Some s -> attr (new_cafe_check req) = true) /\
            (raw = Some "false" -> attr (new_cafe_check req) = true))
         boolean_fields.
Proof.
  unfold boolean_fields.
  repeat constructor; simpl;
    try (now apply truthy_cases);
    try (intros s Hs Hraw; now apply (truthy_cases _) with (s := s));
    try (intros ->; reflexivity).
Qed.

(** ** Read handlers *)

Lemma map_snd_combine {A B} (l : list A) (l' : list B) :
  length l = length l' -> map snd (combine l l') = l'.
Proof.
  revert l'. induction l as [|x l IH]; intros [|y l'] H; simpl in *;
    try discriminate; trivial.
  f_equal. apply IH. now injection H.
Qed.

(** Ordering by [random()] reorders the table and nothing else. *)
Lemma order_by_random_perm (env : environ) (tbl : list Cafe) :
  Permutation (order_by_random env tbl) tbl.
Proof.
  unfold order_by_random.
  eapply Permutation_trans.
  - apply Permutation_map, order_by_perm.
  - rewrite map_snd_combine; [apply Permutation_refl|].
    now rewrite length_map, length_seq.
Qed.

(** C9. GET /api/random answers 404 with the Not-Found payload on an empty
    table; on a non-empty table it answers 200 with the projection, under
    "cafe", of a row that is in the table. *)
Theorem random_cafe_spec (env : environ) (tbl : list Cafe) :
  (tbl = [] ->
   random_cafe env tbl
   = (JObj [("error", JObj [("Not Found", JStr "No cafes found in the database")])], 404)) /\
  (tbl <> [] ->
   exists cafe, In cafe tbl /\
     random_cafe env tbl = (JObj [("cafe", JObj (get_cafe_response cafe))], 200)).
Proof.
  split.
  - intros ->. reflexivity.
  - intros Hne. pose proof (order_by_random_perm env tbl) as P.
    unfold random_cafe.
    destruct (order_by_random env tbl) as [|cafe rest] eqn:E.
    + apply Permutation_nil in P. congruence.
    + exists cafe. split; [|reflexivity].
      apply (Permutation_in cafe P). now left.
Qed.

Lemma stored_location (r : Cafe) : stored r -> location r <> None.
Proof.
  intros [_ H] E. unfold first_null in H. rewrite E in H.
  destruct (name r), (map_url r), (img_url r); discriminate.
Qed.

Lemma optstr_eqb_eq (x y : Py.optstr) : Py.eqb x y = true <-> x = y.
Proof.
  destruct x as [a|], y as [b|]; simpl; split; intros H;
    try discriminate; trivial.
  - apply String.eqb_eq in H. now subst.
  - injection H as ->. apply String.eqb_refl.
Qed.

(** C10. GET /api/search formats exactly the rows whose location is the
    string given as [loc], compared character for character, ordered by name
    ascending: 200 with the projections under "cafes", or the Not-Found
    response when there is none.  Without a [loc] parameter the filter is a
    comparison with [None], which no stored row satisfies, so the answer is
    the Not-Found response. *)
Theorem search_cafe_spec (req : request) (tbl : list Cafe) :
  let loc := get "loc" (args req) in
  exists found : list Cafe,
    (forall r, In r found <-> In r tbl /\ location r = loc) /\
    Permutation found (filter (fun r => Py.eqb (location r) loc) tbl) /\
    Sorted (fun a b => by_name a b = true) found /\
    search_cafe req tbl = many_responses (PyList found) /\
    (found <> [] ->
     search_cafe req tbl
     = (jsonify [("cafes", JArr (map (fun cafe => JObj (get_cafe_response cafe)) found))], 200)) /\
    (found = [] -> search_cafe req tbl = (not_found_payload, 404)) /\
    (loc = None -> Forall stored tbl -> search_cafe req tbl = (not_found_payload, 404)).
Proof.
  intros loc.
  exists (order_by by_name (filter_by_location loc tbl)).
  assert (Hin : forall r, In r (order_by by_name (filter_by_location loc tbl))
                          <-> In r tbl /\ location r = loc).
  { intros r. rewrite order_by_In. unfold filter_by_location.
    rewrite filter_In, optstr_eqb_eq. tauto. }
  split; [exact Hin|].
  split; [apply order_by_perm|].
  split; [apply order_by_sorted, by_name_total|].
  split; [reflexivity|].
  split; [apply many_responses_list|].
  split; [apply many_responses_list|].
  intros Hloc Hstored.
  apply many_responses_list.
  destruct (order_by by_name (filter_by_location loc tbl)) as [|r rest] eqn:E; trivial.
  exfalso.
  assert (Hr : In r tbl /\ location r = loc) by (apply Hin; now left).
  destruct Hr as [Hr Hl]. rewrite Forall_forall in Hstored.
  apply (stored_location r (Hstored r Hr)). congruence.
Qed.

(** ** Write handlers: what a run from a clean session computes *)


Lemma add_cafe_run (env : environ) (req : request) (tbl : list Cafe) :
  dispatch (add_cafe env req) (fresh tbl)
  = match commit_error env [Insert (new_cafe_check req)] tbl with
    | Some e =>
        (Responded (failure_response (repr e)),
         {| table := tbl; pending := [];
            log := [CallAdd; CallCommit; CallRollback; CallClose] |})
    | None =>
        (Responded success_response,
         {| table := match flush [Insert (new_cafe_check req)] tbl with
                     | inr tbl' => tbl'
                     | inl _ => tbl
                     end;
            pending := []; log := [CallAdd; CallCommit; CallClose] |})
    end.
Proof.
  unfold dispatch, add_cafe, try_except_finally, bind, session_add,
    session_commit, session_rollback, session_close, ret, fresh, commit_error,
    failure_response, success_response, record.
  cbn [table pending log app].
  destruct (flush [Insert (new_cafe_check req)] tbl) as [e|tbl'].
  - destruct (Py.contains "NOT NULL constraint failed" (repr e));
      [reflexivity|].
    destruct (Py.contains "UNIQUE constraint failed" (repr e)); reflexivity.
  - destruct (commit_fault env) as [msg|]; cbn [option_map]; [|reflexivity].
    destruct (Py.contains "NOT NULL constraint failed" (repr (OperationalError msg)));
      [reflexivity|].
    destruct (Py.contains "UNIQUE constraint failed" (repr (OperationalError msg)));
      reflexivity.
Qed.

Lemma db_get_id (tbl : list Cafe) (pk : Z) (obj : Cafe) :
  db_get tbl pk = Some obj -> In obj tbl /\ id obj = Some pk.
Proof.
  unfold db_get. intros H. apply find_some in H as [Hin Hid].
  split; trivial.
  destruct (id obj) as [k|]; simpl in Hid; [|discriminate].
  apply Z.eqb_eq in Hid. now subst.
Qed.

Lemma update_price_run (env : environ) (req : request) (cafe_id : Z)
    (tbl : list Cafe) :
  let new_price := get "new_price" (args req) in
  dispatch (update_price env req cafe_id) (fresh tbl)
  = if negb (Py.truthy new_price) then
      (Responded (jsonify [("error", JObj [("error", JStr "coffee_price cannot be null.")])], 400),
       fresh tbl)
    else
      match db_get tbl cafe_id with
      | None => (Aborted 404 "This ID Does not Exist.", fresh tbl)
      | Some _ =>
          match commit_fault env with
          | Some msg =>
              (Responded (failure_response (repr (OperationalError msg))),
               {| table := tbl; pending := [];
                  log := [CallCommit; CallRollback; CallClose] |})
          | None =>
              (Responded success_response,
               {| table := map (fun r => if Py.int_eqb (id r) (Some cafe_id)
                                         then set_coffee_price new_price r else r) tbl;
                  pending := []; log := [CallCommit; CallClose] |})
          end
      end.
Proof.
  intros new_price. unfold update_price. fold new_price.
  destruct (negb (Py.truthy new_price)); [reflexivity|].
  unfold dispatch, try_except_finally, bind, get_or_404, assign_coffee_price,
    session_commit, session_rollback, session_close, ret, fresh,
    failure_response, success_response, record.
  cbn [table pending log app].
  destruct (db_get tbl cafe_id) as [obj|] eqn:Hget; [|reflexivity].
  apply db_get_id in Hget as [_ Hid].
  cbn [table pending log app flush apply_change]. rewrite Hid.
  destruct (commit_fault env) as [msg|]; [|reflexivity].
  destruct (Py.contains "NOT NULL constraint failed" (repr (OperationalError msg)));
    [reflexivity|].
  destruct (Py.contains "UNIQUE constraint failed" (repr (OperationalError msg)));
    reflexivity.
Qed.

Lemma delete_cafe_run (env : environ) (req : request) (cafe_id : Z)
    (tbl : list Cafe) :
  let api_key := get "api-key" (args req) in
  dispatch (delete_cafe env req cafe_id) (fresh tbl)
  = if negb (Py.truthy api_key) || negb (Py.eqb api_key (SECRET_API env)) then
      (Responded (jsonify [("error", JObj [("error", JStr "Not Authorized to perform this action.")])], 403),
       fresh tbl)
    else
      match db_get tbl cafe_id with
      | None => (Aborted 404 "This ID Does not Exist.", fresh tbl)
      | Some _ =>
          match commit_fault env with
          | Some msg =>
              (Unhandled (OperationalError msg),
               {| table := tbl; pending := [Delete (Some cafe_id)];
                  log := [CallDelete; CallCommit] |})
          | None =>
              (Responded success_response,
               {| table := filter (fun r => negb (Py.int_eqb (id r) (Some cafe_id))) tbl;
                  pending := []; log := [CallDelete; CallCommit; CallClose] |})
          end
      end.
Proof.
  intros api_key. unfold delete_cafe. fold api_key.
  destruct (negb (Py.truthy api_key) || negb (Py.eqb api_key (SECRET_API env)));
    [reflexivity|].
  unfold dispatch, bind, get_or_404, session_delete, session_commit,
    session_close, ret, fresh, success_response, record.
  cbn [table pending log app].
  destruct (db_get tbl cafe_id) as [obj|] eqn:Hget; [|reflexivity].
  apply db_get_id in Hget as [_ Hid].
  cbn [table pending log app flush apply_change]. rewrite Hid.
  destruct (commit_fault env) as [msg|]; reflexivity.
Qed.

(** ** Failure handling on the write paths *)



Lemma existsb_same_name (obj : Cafe) (tbl : list Cafe) :
  existsb (fun r => Py.eqb (name r) (name obj)) tbl = true
  <-> exists r, In r tbl /\ name r = name obj.
Proof.
  rewrite existsb_exists. split; intros [r [Hin H]]; exists r; split; trivial;
    now apply optstr_eqb_eq.
Qed.

(** What the flush of one INSERT of a freshly built entity comes to. *)
Lemma flush_insert_new (req : request) (tbl : list Cafe) :
  let obj := new_cafe_check req in
  flush [Insert obj] tbl
  = match first_null obj with
    | Some col => inl (IntegrityError ("NOT NULL constraint failed: cafe." ++ col))
    | None =>
        if existsb (fun r => Py.eqb (name r) (name obj)) tbl
        then inl (IntegrityError "UNIQUE constraint failed: cafe.name")
        else inr (tbl ++ [set_id (next_rowid tbl) obj])%list
    end.
Proof.
  intros obj. cbn [flush apply_change].
  destruct (first_null obj); [reflexivity|].
  change (id obj) with (@None Z). cbv iota beta zeta.
  destruct (existsb _ tbl); reflexivity.
Qed.

(** POST /api/add never lets an exception out: it answers, it has closed the
    session, and unless it answers 200 it has rolled back and the table is
    as before. *)
Lemma add_cafe_handles_every_failure (env : environ) (req : request)
    (tbl : list Cafe) :
  exists r w',
    dispatch (add_cafe env req) (fresh tbl) = (Responded r, w') /\
    last (log w') CallAdd = CallClose /\ pending w' = [] /\
    (r = success_response \/
     (snd r = 400 /\ table w' = tbl /\ In CallRollback (log w'))).
Proof.
  rewrite add_cafe_run.
  destruct (commit_error env [Insert (new_cafe_check req)] tbl) as [e|].
  - eexists _, _. split; [reflexivity|]. repeat split. right.
    repeat split; [|simpl; tauto].
    unfold failure_response.
    destruct (Py.contains "NOT NULL constraint failed" (repr e)); [reflexivity|].
    destruct (Py.contains "UNIQUE constraint failed" (repr e)); reflexivity.
  - eexists _, _. split; [reflexivity|]. repeat split. now left.
Qed.

(** PATCH /api/update-price handles a failing commit the same way. *)
Lemma update_price_handles_commit_failure (env : environ) (req : request)
    (cafe_id : Z) (tbl : list Cafe) (msg : string) :
  Py.truthy (get "new_price" (args req)) = true ->
  db_get tbl cafe_id <> None ->
  commit_fault env = Some msg ->
  exists r,
    dispatch (update_price env req cafe_id) (fresh tbl)
    = (Responded r, {| table := tbl; pending := [];
                       log := [CallCommit; CallRollback; CallClose] |}) /\
    snd r = 400.
Proof.
  intros Ht Hget Hfault. rewrite update_price_run, Ht, Hfault. simpl negb.
  destruct (db_get tbl cafe_id); [|congruence].
  eexists. split; [reflexivity|].
  unfold failure_response.
  destruct (Py.contains "NOT NULL constraint failed" _); [reflexivity|].
  destruct (Py.contains "UNIQUE constraint failed" _); reflexivity.
Qed.

(** C3. DELETE /api/report-closed has no handler around its commit: when the
    driver fails there, the exception leaves the view unhandled, and the view
    has neither rolled back nor closed the session. *)
Theorem delete_cafe_commit_fault_unhandled (env : environ) (req : request)
    (cafe_id : Z) (tbl : list Cafe) (msg : string) :
  Py.truthy (get "api-key" (args req)) = true ->
  get "api-key" (args req) = SECRET_API env ->
  db_get tbl cafe_id <> None ->
  commit_fault env = Some msg ->
  exists w',
    dispatch (delete_cafe env req cafe_id) (fresh tbl)
    = (Unhandled (OperationalError msg), w') /\
    ~ In CallRollback (log w') /\ ~ In CallClose (log w') /\
    pending w' <> [].
Proof.
  intros Ht Hkey Hget Hfault.
  rewrite delete_cafe_run, Ht, <- Hkey, Hfault.
  replace (Py.eqb _ _) with true by (symmetry; now apply optstr_eqb_eq).
  simpl orb. cbv iota.
  destruct (db_get tbl cafe_id); [|congruence].
  eexists. split; [reflexivity|]. simpl.
  repeat split; try discriminate; intros [H|[H|[]]]; discriminate.
Qed.


(** ** The success response *)

(** C4. A successful insert answers 200 with the body
    {"success": {"success": "Successfully added the new cafe"}}, the message
    nested under a second "success" key, and every 200 answer of
    PATCH /api/update-price and DELETE /api/report-closed has this same
    body. *)
Theorem success_response_shared (env : environ) (req : request)
    (cafe_id : Z) (tbl : list Cafe) :
  let success :=
    JObj [("success", JObj [("success", JStr "Successfully added the new cafe")])] in
  (forall tbl',
     flush [Insert (new_cafe_check req)] tbl = inr tbl' ->
     commit_fault env = None ->
     dispatch (add_cafe env req) (fresh tbl)
     = (Responded (success, 200),
        {| table := tbl'; pending := [];
           log := [CallAdd; CallCommit; CallClose] |})) /\
  (forall body w',
     dispatch (add_cafe env req) (fresh tbl) = (Responded (body, 200), w') ->
     body = success) /\
  (forall body w',
     dispatch (update_price env req cafe_id) (fresh tbl) = (Responded (body, 200), w') ->
     body = success) /\
  (forall body w',
     dispatch (delete_cafe env req cafe_id) (fresh tbl) = (Responded (body, 200), w') ->
     body = success).
Proof.
  intros success. repeat split.
  - intros tbl' Hflush Hfault. rewrite add_cafe_run. unfold commit_error.
    rewrite Hflush, Hfault. reflexivity.
  - intros body w'. rewrite add_cafe_run.
    destruct (commit_error _ _ _) as [e|].
    + unfold failure_response.
      destruct (Py.contains "NOT NULL constraint failed" (repr e));
        [|destruct (Py.contains "UNIQUE constraint failed" (repr e))];
        intros H; inversion H.
    + intros H. now inversion H.
  - intros body w'. rewrite update_price_run.
    destruct (negb _); [intros H; inversion H|].
    destruct (db_get tbl cafe_id); [|discriminate].
    destruct (commit_fault env) as [msg|].
    + unfold failure_response.
      destruct (Py.contains "NOT NULL constraint failed" _);
        [|destruct (Py.contains "UNIQUE constraint failed" _)];
        intros H; inversion H.
    + intros H. now inversion H.
  - intros body w'. rewrite delete_cafe_run.
    destruct (_ || _); [intros H; inversion H|].
    destruct (db_get tbl cafe_id); [|discriminate].
    destruct (commit_fault env) as [msg|]; [discriminate|].
    intros H. now inversion H.
Qed.

(** ** Report-closed *)

Lemma int_eqb_eq (x y : option Z) : Py.int_eqb x y = true <-> x = y.
Proof.
  destruct x as [a|], y as [b|]; simpl; split; intros H;
    try discriminate; trivial.
  - apply Z.eqb_eq in H. now subst.
  - injection H as ->. apply Z.eqb_refl.
Qed.

Lemma db_get_none (tbl : list Cafe) (pk : Z) :
  db_get tbl pk = None <-> (forall r, In r tbl -> id r <> Some pk).
Proof.
  unfold db_get. split.
  - intros H r Hin Hid.
    apply (find_none _ _ H) in Hin.
    apply int_eqb_eq in Hid. congruence.
  - intros H. induction tbl as [|r rest IH]; simpl; trivial.
    destruct (Py.int_eqb (id r) (Some pk)) eqn:E.
    + apply int_eqb_eq in E. exfalso. apply (H r); simpl; auto.
    + apply IH. intros r' Hin. apply H. now right.
Qed.

Lemma filter_other_ids (tbl : list Cafe) (pk : Z) (r : Cafe) :
  In r (filter (fun r => negb (Py.int_eqb (id r) (Some pk))) tbl)
  <-> In r tbl /\ id r <> Some pk.
Proof.
  rewrite filter_In, negb_true_iff, <- not_true_iff_false, int_eqb_eq.
  tauto.
Qed.


(** ** Update-price *)





Lemma db_get_updated (pk : Z) (v : Py.optstr) (tbl : list Cafe) :
  db_get (map (fun r => if Py.int_eqb (id r) (Some pk)
                        then set_coffee_price v r else r) tbl) pk
  = option_map (set_coffee_price v) (db_get tbl pk).
Proof.
  unfold db_get. induction tbl as [|r rest IH]; simpl; trivial.
  destruct (Py.int_eqb (id r) (Some pk)) eqn:E; simpl; rewrite E; trivial.
Qed.


(** ** The table invariant *)

Lemma apply_change_stored (ch : change) (tbl tbl' : list Cafe) :
  Forall stored tbl -> apply_change ch tbl = inr tbl' -> Forall stored tbl'.
Proof.
  intros Hst. destruct ch as [obj|pk v|pk]; simpl.
  - destruct (first_null obj) eqn:Hnull; [discriminate|].
    destruct (match id obj with Some k => _ | None => false end); [discriminate|].
    destruct (existsb _ tbl); [discriminate|].
    intros H. injection H as <-.
    apply Forall_app. split; trivial.
    constructor; [|constructor]. split; [discriminate | exact Hnull].
  - intros H. injection H as <-.
    apply Forall_map. eapply Forall_impl; [|exact Hst].
    intros r Hr. destruct (Py.int_eqb (id r) pk); exact Hr.
  - intros H. injection H as <-.
    apply Forall_forall. intros r Hin. apply filter_In in Hin as [Hin _].
    rewrite Forall_forall in Hst. now apply Hst.
Qed.

Lemma flush_stored (changes : list change) (tbl tbl' : list Cafe) :
  Forall stored tbl -> flush changes tbl = inr tbl' -> Forall stored tbl'.
Proof.
  revert tbl. induction changes as [|ch rest IH]; simpl; intros tbl Hst.
  - intros H. now injection H as <-.
  - destruct (apply_change ch tbl) as [e|tbl1] eqn:E; [discriminate|].
    apply IH. eapply apply_change_stored; eauto.
Qed.

(** Every write handler leaves a table of constraint-abiding rows so. *)
Lemma writes_preserve_stored (env : environ) (req : request) (cafe_id : Z)
    (tbl : list Cafe) :
  Forall stored tbl ->
  Forall stored (table (snd (dispatch (add_cafe env req) (fresh tbl)))) /\
  Forall stored (table (snd (dispatch (update_price env req cafe_id) (fresh tbl)))) /\
  Forall stored (table (snd (dispatch (delete_cafe env req cafe_id) (fresh tbl)))).
Proof.
  intros Hst. repeat split.
  - rewrite add_cafe_run.
    destruct (commit_error _ _ _); cbn [snd table]; trivial.
    destruct (flush _ tbl) eqn:E; trivial.
    eapply flush_stored; eauto.
  - rewrite update_price_run.
    destruct (negb _); cbn [snd table fresh]; trivial.
    destruct (db_get tbl cafe_id); cbn [snd table fresh]; trivial.
    destruct (commit_fault env); cbn [snd table]; trivial.
    apply (apply_change_stored
             (SetCoffeePrice (Some cafe_id) (get "new_price" (args req))) tbl);
      trivial.
  - rewrite delete_cafe_run.
    destruct (_ || _); cbn [snd table fresh]; trivial.
    destruct (db_get tbl cafe_id); cbn [snd table fresh]; trivial.
    destruct (commit_fault env); cbn [snd table]; trivial.
    apply (apply_change_stored (Delete (Some cafe_id)) tbl); trivial.
Qed.

(** ** Concrete runs *)

(** The example rows satisfy the table constraints. *)
Lemma examples_stored : Forall stored [cafe_a; cafe_b].
Proof. repeat constructor; discriminate. Defined.

(** The builder on a form with sockets=false, toilet= (empty), calls=yes and
    no wifi field. *)
Lemma new_cafe_check_booleans_witness :
  has_sockets (new_cafe_check example_add_request) = true /\
  has_toilet (new_cafe_check example_add_request) = false /\
  has_wifi (new_cafe_check example_add_request) = false /\
  can_take_calls (new_cafe_check example_add_request) = true.
Proof.
  pose proof (new_cafe_check_booleans example_add_request) as H.
  pose proof (Forall_inv H) as Hsockets.
  pose proof (Forall_inv (Forall_inv_tail H)) as Htoilet.
  pose proof (Forall_inv (Forall_inv_tail (Forall_inv_tail H))) as Hwifi.
  pose proof (Forall_inv (Forall_inv_tail (Forall_inv_tail (Forall_inv_tail H))))
    as Hcalls.
  cbv beta iota zeta in Hsockets, Htoilet, Hwifi, Hcalls.
  split; [|split; [|split]].
  - apply Hsockets. reflexivity.
  - apply Htoilet. right. reflexivity.
  - apply Hwifi. left. reflexivity.
  - apply (proj1 (proj2 Hcalls) "yes"); [discriminate | reflexivity].
Defined.

(** A random pick from the two example rows. *)
Lemma random_cafe_spec_witness :
  [cafe_a; cafe_b] <> [] /\
  exists cafe, In cafe [cafe_a; cafe_b] /\
    random_cafe example_env [cafe_a; cafe_b]
    = (JObj [("cafe", JObj (get_cafe_response cafe))], 200).
Proof.
  split; [discriminate|].
  apply (random_cafe_spec example_env [cafe_a; cafe_b]). discriminate.
Defined.

(** A search without [loc] over the two example rows. *)
Lemma search_cafe_spec_witness :
  get "loc" (args no_parameters) = None /\
  search_cafe no_parameters [cafe_a; cafe_b] = (not_found_payload, 404).
Proof.
  split; [reflexivity|].
  destruct (search_cafe_spec no_parameters [cafe_a; cafe_b])
    as [found [_ [_ [_ [_ [_ [_ H]]]]]]].
  apply H; [reflexivity | exact examples_stored].
Defined.

(** An authorised delete of row 1 while the database is locked. *)
Lemma delete_cafe_commit_fault_unhandled_witness :
  exists w',
    dispatch (delete_cafe locked_env authorised_delete_request 1)
             (fresh [cafe_a; cafe_b])
    = (Unhandled (OperationalError "database is locked"), w') /\
    ~ In CallRollback (log w') /\ ~ In CallClose (log w') /\
    pending w' <> [].
Proof.
  apply (delete_cafe_commit_fault_unhandled locked_env authorised_delete_request
           1 [cafe_a; cafe_b] "database is locked");
    [reflexivity | reflexivity | discriminate | reflexivity].
Defined.


(** Adding "Cafe C" to the two example rows: it becomes row 3. *)
Lemma success_response_shared_witness :
  dispatch (add_cafe example_env example_add_request) (fresh [cafe_a; cafe_b])
  = (Responded
       (JObj [("success", JObj [("success", JStr "Successfully added the new cafe")])],
        200),
     {| table := [cafe_a; cafe_b; set_id 3 (new_cafe_check example_add_request)];
        pending := []; log := [CallAdd; CallCommit; CallClose] |}).
Proof.
  apply (success_response_shared example_env example_add_request 1 [cafe_a; cafe_b]);
    reflexivity.
Defined.



(** More runs of the handlers on the example data. *)

Example add_cafe_missing_field :
  dispatch (add_cafe example_env {| args := []; form := [("name", "Cafe D")] |})
           (fresh [cafe_a; cafe_b])
  = (Responded (jsonify [("error", JObj [("error", JStr "Missing input parameters")])], 400),
     {| table := [cafe_a; cafe_b]; pending := [];
        log := [CallAdd; CallCommit; CallRollback; CallClose] |}).
Proof. reflexivity. Qed.

Example add_cafe_database_locked :
  dispatch (add_cafe locked_env example_add_request) (fresh [cafe_a; cafe_b])
  = (Responded (jsonify [("error", JObj [("error", JStr "Error writing to database")])], 400),
     {| table := [cafe_a; cafe_b]; pending := [];
        log := [CallAdd; CallCommit; CallRollback; CallClose] |}).
Proof. reflexivity. Qed.

(** A NULL column is reported before a duplicate name. *)
Example add_cafe_missing_field_and_duplicate :
  fst (dispatch (add_cafe example_env {| args := []; form := [("name", "Cafe A")] |})
                (fresh [cafe_a; cafe_b]))
  = Responded (jsonify [("error", JObj [("error", JStr "Missing input parameters")])], 400).
Proof. reflexivity. Qed.

Example update_price_takes_any_text :
  option_map coffee_price
    (db_get (table (snd (dispatch
                           (update_price example_env
                              {| args := [("new_price", "two coins")]; form := [] |} 2)
                           (fresh [cafe_a; cafe_b])))) 2)
  = Some (Some "two coins").
Proof. reflexivity. Qed.

Example update_price_database_locked :
  dispatch (update_price locked_env price_request 1) (fresh [cafe_a; cafe_b])
  = (Responded (jsonify [("error", JObj [("error", JStr "Error writing to database")])], 400),
     {| table := [cafe_a; cafe_b]; pending := [];
        log := [CallCommit; CallRollback; CallClose] |}).
Proof. reflexivity. Qed.

(** The location filter is exact: no case folding, no prefix match. *)
Example search_is_exact :
  search_cafe {| args := [("loc", "city a")]; form := [] |} [cafe_a; cafe_b]
  = (not_found_payload, 404) /\
  search_cafe {| args := [("loc", "City")]; form := [] |} [cafe_a; cafe_b]
  = (not_found_payload, 404) /\
  search_cafe {| args := [("loc", "City A")]; form := [] |} [cafe_b; cafe_a]
  = (jsonify [("cafes", JArr [JObj (get_cafe_response cafe_a);
                              JObj (get_cafe_response cafe_b)])], 200).
Proof. repeat split. Qed.

(** On a non-empty table both list endpoints give the "cafes" array. *)
Example all_cafes_two_rows :
  all_cafes [cafe_b; cafe_a]
  = (jsonify [("cafes", JArr [JObj (get_cafe_response cafe_a);
                              JObj (get_cafe_response cafe_b)])], 200).
Proof. reflexivity. Qed.

(** C4, as stated, fails: the body of a successful insert is not the flat
    object {"success": "Successfully added the new cafe"}. *)
Lemma add_cafe_success_body_not_flat :
  exists body w',
    dispatch (add_cafe example_env example_add_request) (fresh []) = (Responded (body, 200), w') /\
    length (table w') = 1%nat /\
    body <> JObj [("success", JStr "Successfully added the new cafe")].
Proof.
  eexists _, _. split; [reflexivity|]. split; [reflexivity | discriminate].
Qed.


(** * Further properties of the handlers *)

(** ** Listing and adding *)

(** GET /api/all always answers 200, with the projections of all the rows of
    the table, each once, in ascending order of name. *)
Theorem all_cafes_lists_table_by_name (tbl : list Cafe) :
  exists rows,
    all_cafes tbl = listing rows /\
    Permutation rows tbl /\
    Sorted (fun a b => by_name a b = true) rows.
Proof.
  exists (order_by by_name tbl). split; [reflexivity|].
  split; [apply order_by_perm | apply order_by_sorted, by_name_total].
Qed.

Lemma first_null_none (obj : Cafe) :
  first_null obj = None
  <-> name obj <> None /\ map_url obj <> None /\ img_url obj <> None /\
      location obj <> None /\ seats obj <> None.
Proof.
  unfold first_null.
  destruct (name obj), (map_url obj), (img_url obj), (location obj), (seats obj);
    split; intros H; try discriminate; try reflexivity;
    try (repeat split; discriminate);
    destruct H as [H1 [H2 [H3 [H4 H5]]]]; congruence.
Qed.

Lemma failure_response_not_success (error_string : string) :
  failure_response error_string <> success_response.
Proof.
  unfold failure_response.
  destruct (Py.contains "NOT NULL constraint failed" error_string);
    [|destruct (Py.contains "UNIQUE constraint failed" error_string)];
    discriminate.
Qed.

Lemma failed_is_not_success (error_string : string) :
  Responded (failure_response error_string) <> Responded success_response.
Proof.
  intros H.
  apply (failure_response_not_success error_string). congruence.
Qed.

(** POST /api/add answers with the success response exactly when the form
    holds the five fields name, map_url, img_url, loc and seats (empty
    values count as present), no stored row has the posted name, and the
    driver does not fail.  The boolean fields and coffee_price play no part. *)
Theorem add_cafe_succeeds_iff (env : environ) (req : request) (tbl : list Cafe) :
  fst (dispatch (add_cafe env req) (fresh tbl)) = Responded success_response
  <-> (get "name" (form req) <> None /\ get "map_url" (form req) <> None /\
       get "img_url" (form req) <> None /\ get "loc" (form req) <> None /\
       get "seats" (form req) <> None) /\
      (forall r, In r tbl -> name r <> get "name" (form req)) /\
      commit_fault env = None.
Proof.
  rewrite add_cafe_run. unfold commit_error. rewrite flush_insert_new.
  cbv zeta.
  pose proof (first_null_none (new_cafe_check req)) as Hnull.
  pose proof (existsb_same_name (new_cafe_check req) tbl) as Hdup.
  cbn [new_cafe_check name map_url img_url location seats] in Hnull, Hdup.
  destruct (first_null (new_cafe_check req)) as [col|].
  - cbn [fst]. split.
    + intros H. now apply failed_is_not_success in H.
    + intros [H _]. apply Hnull in H. discriminate.
  - destruct (existsb _ tbl).
    + cbn [fst]. split.
      * intros H. now apply failed_is_not_success in H.
      * intros [_ [H _]]. destruct (proj1 Hdup eq_refl) as [r [Hin Hr]].
        now apply H in Hin.
    + destruct (commit_fault env) as [msg|]; cbn [option_map fst].
      * split.
        -- intros H. now apply failed_is_not_success in H.
        -- intros [_ [_ H]]. discriminate.
      * split; [|reflexivity]. intros _.
        split; [now apply Hnull|]. split; [|reflexivity].
        intros r Hin Hr.
        assert (false = true) by (apply Hdup; eauto). discriminate.
Qed.

Lemma next_rowid_fresh (tbl : list Cafe) (r : Cafe) :
  In r tbl -> id r <> Some (next_rowid tbl).
Proof.
  unfold next_rowid. intros Hin Hid.
  assert (Hle : forall k, id r = Some k ->
                  k <= fold_right (fun r m => match id r with
                                              | Some k => Z.max k m
                                              | None => m
                                              end) 0 tbl).
  { clear Hid. induction tbl as [|x rest IH]; [contradiction|].
    intros k Hk. simpl. destruct Hin as [-> | Hin].
    - rewrite Hk. lia.
    - specialize (IH Hin k Hk). destruct (id x); lia. }
  specialize (Hle _ Hid). lia.
Qed.


(** The two ways POST /api/add ends: the built entity is appended under a
    fresh rowid, or the table is as before. *)
Lemma add_cafe_table (env : environ) (req : request) (tbl : list Cafe) :
  let run := dispatch (add_cafe env req) (fresh tbl) in
  (fst run = Responded success_response /\
   table (snd run) = (tbl ++ [set_id (next_rowid tbl) (new_cafe_check req)])%list /\
   first_null (new_cafe_check req) = None /\
   existsb (fun r => Py.eqb (name r) (name (new_cafe_check req))) tbl = false)
  \/ (fst run <> Responded success_response /\ table (snd run) = tbl).
Proof.
  cbv zeta. rewrite add_cafe_run. unfold commit_error.
  rewrite flush_insert_new. cbv zeta.
  destruct (first_null (new_cafe_check req)) as [col|].
  - right. split; [apply failed_is_not_success | reflexivity].
  - destruct (existsb _ tbl).
    + right. split; [apply failed_is_not_success | reflexivity].
    + destruct (commit_fault env) as [msg|]; cbn [option_map].
      * right. split; [apply failed_is_not_success | reflexivity].
      * left. repeat split.
Qed.



(** ** Invariants of the table *)

(** Dropping rows keeps a column free of repetitions. *)
Lemma NoDup_map_filter {Row Key : Type} (column : Row -> Key)
    (keep : Row -> bool) (rows : list Row) (Hnd : NoDup (map column rows)) :
  NoDup (map column (filter keep rows)).
Proof.
  revert Hnd. induction rows as [|x rest IH]; simpl; trivial.
  intros H. inversion H as [|? ? Hnotin Hrest]; subst.
  destruct (keep x); simpl; [|now apply IH].
  constructor; [|now apply IH].
  intros Hin. apply Hnotin.
  apply in_map_iff in Hin as [y [Hy Hin]]. apply filter_In in Hin as [Hin _].
  apply in_map_iff. eauto.
Qed.

Lemma map_id_update (pk : option Z) (v : Py.optstr) (tbl : list Cafe) :
  map id (map (fun r => if Py.int_eqb (id r) pk then set_coffee_price v r else r) tbl)
  = map id tbl /\
  map name (map (fun r => if Py.int_eqb (id r) pk then set_coffee_price v r else r) tbl)
  = map name tbl.
Proof.
  split; rewrite map_map; apply map_ext; intros r;
    destruct (Py.int_eqb (id r) pk); reflexivity.
Qed.

(** No write handler breaks the uniqueness of primary keys and of names:
    whatever the request and whatever the answer, a table in which ids and
    names occur once each is left so. *)
Theorem writes_preserve_unique_keys (env : environ) (req : request)
    (cafe_id : Z) (tbl : list Cafe) :
  unique_keys tbl ->
  unique_keys (table (snd (dispatch (add_cafe env req) (fresh tbl)))) /\
  unique_keys (table (snd (dispatch (update_price env req cafe_id) (fresh tbl)))) /\
  unique_keys (table (snd (dispatch (delete_cafe env req cafe_id) (fresh tbl)))).
Proof.
  intros [Hid Hname]. split; [|split].
  - destruct (add_cafe_table env req tbl) as [[_ [-> [_ Hdup]]] | [_ ->]];
      [|now split].
    unfold unique_keys. rewrite !map_app. cbn [map].
    split; apply NoDup_app; trivial; try (constructor; [simpl; tauto | constructor]).
    + intros k Hk [<- | []]. apply in_map_iff in Hk as [r [Hr Hin]].
      now apply next_rowid_fresh in Hin.
    + intros n Hn [<- | []]. apply in_map_iff in Hn as [r [Hr Hin]].
      assert (existsb (fun r => Py.eqb (name r) (name (new_cafe_check req))) tbl = true).
      { apply existsb_same_name. eauto. }
      congruence.
  - rewrite update_price_run.
    destruct (negb _); cbn [snd table fresh]; [now split|].
    destruct (db_get tbl cafe_id); cbn [snd table fresh]; [|now split].
    destruct (commit_fault env); cbn [snd table]; [now split|].
    unfold unique_keys.
    destruct (map_id_update (Some cafe_id) (get "new_price" (args req)) tbl)
      as [-> ->].
    now split.
  - rewrite delete_cafe_run.
    destruct (_ || _); cbn [snd table fresh]; [now split|].
    destruct (db_get tbl cafe_id); cbn [snd table fresh]; [|now split].
    destruct (commit_fault env); cbn [snd table]; [now split|].
    split; now apply NoDup_map_filter.
Qed.

(** ** Repeating a write *)

Lemma update_rows_twice (pk : option Z) (v : Py.optstr) (tbl : list Cafe) :
  let f := fun r => if Py.int_eqb (id r) pk then set_coffee_price v r else r in
  map f (map f tbl) = map f tbl.
Proof.
  cbv zeta. rewrite map_map. apply map_ext. intros r.
  destruct (Py.int_eqb (id r) pk) eqn:E; [|now rewrite E].
  cbn [set_coffee_price id]. now rewrite E.
Qed.

(** PATCH /api/update-price is idempotent: sending the same request again
    gets the same answer and leaves the table as the first one left it. *)
Theorem update_price_idempotent (env : environ) (req : request) (cafe_id : Z)
    (tbl : list Cafe) :
  let first := dispatch (update_price env req cafe_id) (fresh tbl) in
  let second := dispatch (update_price env req cafe_id) (fresh (table (snd first))) in
  fst second = fst first /\ table (snd second) = table (snd first).
Proof.
  cbv zeta.
  pose proof (update_price_run env req cafe_id tbl) as H1. cbv zeta in H1.
  rewrite H1. clear H1.
  destruct (negb (Py.truthy (get "new_price" (args req)))) eqn:Ht.
  - cbn [snd fst table fresh].
    pose proof (update_price_run env req cafe_id tbl) as H2. cbv zeta in H2.
    rewrite H2, Ht. now split.
  - destruct (db_get tbl cafe_id) as [obj|] eqn:Hget.
    + destruct (commit_fault env) as [msg|] eqn:Hfault; cbn [snd fst table].
      * pose proof (update_price_run env req cafe_id tbl) as H2. cbv zeta in H2.
        rewrite H2, Ht, Hget, Hfault. now split.
      * match goal with
        | |- context [fresh ?t] =>
            pose proof (update_price_run env req cafe_id t) as H2
        end.
        cbv zeta in H2. rewrite H2, Ht, db_get_updated, Hget, Hfault.
        cbn [option_map fst snd table]. split; [reflexivity|].
        apply (update_rows_twice (Some cafe_id)).
    + cbn [snd fst table fresh].
      pose proof (update_price_run env req cafe_id tbl) as H2. cbv zeta in H2.
      rewrite H2, Ht, Hget. now split.
Qed.

(** Once DELETE /api/report-closed has answered 200 for an id, the same
    request answers 404 and changes nothing. *)
Theorem delete_cafe_twice_is_404 (env : environ) (req : request) (cafe_id : Z)
    (tbl : list Cafe) (w1 : world) :
  dispatch (delete_cafe env req cafe_id) (fresh tbl)
  = (Responded success_response, w1) ->
  dispatch (delete_cafe env req cafe_id) (fresh (table w1))
  = (Aborted 404 "This ID Does not Exist.", fresh (table w1)).
Proof.
  pose proof (delete_cafe_run env req cafe_id tbl) as H1. cbv zeta in H1.
  rewrite H1. clear H1.
  destruct (negb _ || negb _) eqn:Hauth; [discriminate|].
  destruct (db_get tbl cafe_id); [|discriminate].
  destruct (commit_fault env); [discriminate|].
  intros H. injection H as <-. cbn [table].
  match goal with
  | |- context [fresh ?t] => pose proof (delete_cafe_run env req cafe_id t) as H2
  end.
  cbv zeta in H2. rewrite H2, Hauth.
  replace (db_get _ cafe_id) with (@None Cafe); [reflexivity|].
  symmetry. apply db_get_none. intros r Hin. now apply filter_other_ids in Hin.
Qed.

Lemma filter_all_kept {A} (p : A -> bool) (l : list A) :
  (forall x, In x l -> p x = true) -> filter p l = l.
Proof.
  induction l as [|x rest IH]; simpl; trivial.
  intros H. rewrite (H x) by now left.
  f_equal. apply IH. intros y Hy. apply H. now right.
Qed.

Lemma delete_row_perm (tbl : list Cafe) (pk : Z) (r : Cafe) :
  NoDup (map id tbl) -> db_get tbl pk = Some r ->
  Permutation tbl (r :: filter (fun r => negb (Py.int_eqb (id r) (Some pk))) tbl).
Proof.
  unfold db_get. induction tbl as [|x rest IH]; simpl; [discriminate|].
  intros Hnd Hget. inversion Hnd as [|? ? Hnotin Hrest]; subst.
  destruct (Py.int_eqb (id x) (Some pk)) eqn:E; simpl.
  - injection Hget as <-. apply perm_skip.
    rewrite filter_all_kept; [apply Permutation_refl|].
    intros y Hy. apply negb_true_iff, not_true_iff_false. intros Ey.
    apply int_eqb_eq in E, Ey. apply Hnotin. rewrite E, <- Ey.
    now apply in_map.
  - eapply Permutation_trans; [apply perm_skip, IH; trivial|].
    apply perm_swap.
Qed.

(** In a table without repeated ids a successful DELETE /api/report-closed
    removes one row, the one a lookup of the id returned, and keeps every
    other row. *)
Theorem delete_cafe_removes_one_row (env : environ) (req : request)
    (cafe_id : Z) (tbl : list Cafe) (w1 : world) :
  NoDup (map id tbl) ->
  dispatch (delete_cafe env req cafe_id) (fresh tbl)
  = (Responded success_response, w1) ->
  exists row,
    db_get tbl cafe_id = Some row /\
    Permutation tbl (row :: table w1) /\
    length tbl = S (length (table w1)).
Proof.
  intros Hnd.
  pose proof (delete_cafe_run env req cafe_id tbl) as H1. cbv zeta in H1.
  rewrite H1. clear H1.
  destruct (negb _ || negb _); [discriminate|].
  destruct (db_get tbl cafe_id) as [row|] eqn:Hget; [|discriminate].
  destruct (commit_fault env); [discriminate|].
  intros H. injection H as <-. cbn [table].
  exists row. split; [reflexivity|].
  pose proof (delete_row_perm tbl cafe_id row Hnd Hget) as P.
  split; [exact P|]. apply (Permutation_length P).
Qed.


(** ** The substring test behind the error messages *)

Lemma append_assoc (a b c : string) : ((a ++ b) ++ c = a ++ (b ++ c))%string.
Proof. induction a as [|x a IH]; simpl; [reflexivity | now rewrite IH]. Qed.

Lemma prefix_append (needle post : string) :
  String.prefix needle (needle ++ post) = true.
Proof.
  induction needle as [|a needle IH]; simpl.
  - now destruct post.
  - destruct (ascii_dec a a); [exact IH | congruence].
Qed.

Lemma prefix_split (needle hay : string) :
  String.prefix needle hay = true -> exists post, hay = (needle ++ post)%string.
Proof.
  revert hay. induction needle as [|a needle IH]; intros hay H.
  - exists hay. reflexivity.
  - destruct hay as [|b hay]; simpl in H; [discriminate|].
    destruct (ascii_dec a b) as [<-|]; [|discriminate].
    destruct (IH hay H) as [post ->]. now exists post.
Qed.

Lemma contains_unfold (needle hay : string) :
  Py.contains needle hay
  = if String.prefix needle hay then true
    else match hay with
         | EmptyString => false
         | String _ rest => Py.contains needle rest
         end.
Proof. destruct hay; reflexivity. Qed.

(** [needle in hay] holds exactly when [hay] is [needle] between two
    strings. *)
Lemma contains_spec (needle hay : string) :
  Py.contains needle hay = true
  <-> exists pre post, hay = (pre ++ needle ++ post)%string.
Proof.
  split.
  - induction hay as [|c hay IH]; rewrite contains_unfold;
      destruct (String.prefix needle _) eqn:E.
    + intros _. apply prefix_split in E as [post ->]. now exists "", post.
    + discriminate.
    + intros _. apply prefix_split in E as [post E]. now exists "", post.
    + intros H. destruct (IH H) as [pre [post ->]].
      now exists (String c pre), post.
  - intros [pre [post ->]]. induction pre as [|c pre IH]; rewrite contains_unfold.
    + simpl append. now rewrite prefix_append.
    + simpl append. destruct (String.prefix needle _); [reflexivity | exact IH].
Qed.

(** The answer to a failed POST /api/add is chosen by the error text alone:
    when the driver fails at commit with a message that mentions a failed
    NOT NULL constraint, the answer is "Missing input parameters" even
    though the form was complete and the name new. *)
Theorem add_cafe_classifies_by_text_only (env : environ) (req : request)
    (tbl : list Cafe) (pre post : string) :
  first_null (new_cafe_check req) = None ->
  (forall r, In r tbl -> name r <> get "name" (form req)) ->
  commit_fault env = Some (pre ++ "NOT NULL constraint failed" ++ post)%string ->
  dispatch (add_cafe env req) (fresh tbl)
  = (Responded (jsonify [("error", JObj [("error", JStr "Missing input parameters")])], 400),
     {| table := tbl; pending := [];
        log := [CallAdd; CallCommit; CallRollback; CallClose] |}).
Proof.
  intros Hnull Hnew Hfault.
  rewrite add_cafe_run. unfold commit_error. rewrite flush_insert_new.
  cbv zeta. rewrite Hnull.
  destruct (existsb _ tbl) eqn:Hdup.
  - apply existsb_same_name in Hdup as [r [Hin Hr]]. now apply Hnew in Hin.
  - rewrite Hfault. cbn [option_map]. unfold failure_response.
    replace (Py.contains "NOT NULL constraint failed" _) with true; [reflexivity|].
    symmetry. apply contains_spec.
    exists ("OperationalError('(sqlite3.OperationalError) " ++ pre)%string,
           (post ++ "')")%string.
    unfold repr. now rewrite !append_assoc.
Qed.

(** ** The random pick reaches every row *)

Section LeastFirst.
Context {A : Type} (leb : A -> A -> bool).
Hypothesis leb_total : forall x y, leb x y = true \/ leb y x = true.
Hypothesis leb_trans : forall x y z, leb x y = true -> leb y z = true -> leb x z = true.

(** The first row of an ordered result is below every row. *)
Lemma order_by_hd_least (l : list A) (x : A) (rest : list A) :
  order_by leb l = x :: rest -> forall y, In y l -> leb x y = true.
Proof.
  intros E y Hy.
  pose proof (order_by_sorted leb leb_total l) as Hs. rewrite E in Hs.
  apply Sorted_StronglySorted in Hs; [|intros a b c; apply leb_trans].
  apply StronglySorted_inv in Hs as [_ Hall].
  apply (order_by_In leb) in Hy. rewrite E in Hy.
  destruct Hy as [<- | Hy].
  - now destruct (leb_total x x).
  - rewrite Forall_forall in Hall. now apply Hall.
Qed.

End LeastFirst.

Lemma scanned_rows_In (f : nat -> Z) (tbl : list Cafe) (s : nat) (k : Z) (c : Cafe) :
  In (k, c) (combine (map f (seq s (length tbl))) tbl)
  <-> exists j, nth_error tbl j = Some c /\ k = f (s + j)%nat.
Proof.
  revert s. induction tbl as [|x rest IH]; intros s; simpl.
  - split; [contradiction|]. intros [[|j] [H _]]; discriminate.
  - rewrite IH. split.
    + intros [H | [j [Hj ->]]].
      * injection H as <- <-. exists 0%nat. now rewrite Nat.add_0_r.
      * exists (S j). split; trivial. f_equal. lia.
    + intros [[|j] [Hj ->]]; simpl in Hj.
      * left. injection Hj as ->. now rewrite Nat.add_0_r.
      * right. exists j. split; trivial. f_equal. lia.
Qed.

(** Every row of the table can be the answer of GET /api/random: when row
    [i] draws the least random value, its projection is what is returned. *)
Theorem random_cafe_reaches_every_row (env : environ) (tbl : list Cafe)
    (i : nat) (cafe : Cafe) :
  nth_error tbl i = Some cafe ->
  random_cafe (favouring i env) tbl
  = (jsonify [("cafe", JObj (get_cafe_response cafe))], 200).
Proof.
  intros Hi. unfold random_cafe, order_by_random.
  set (f := random (favouring i env)).
  set (leb := fun a b : Z * Cafe => Z.leb (fst a) (fst b)).
  set (l := combine (map f (seq 0 (length tbl))) tbl).
  assert (Hmem : In (0, cafe) l).
  { apply scanned_rows_In. exists i. split; trivial.
    unfold f. simpl. now rewrite Nat.eqb_refl. }
  destruct (order_by leb l) as [|x rest] eqn:E.
  - apply order_by_nil_iff in E. rewrite E in Hmem. contradiction.
  - assert (Hleast : leb x (0, cafe) = true).
    { apply (order_by_hd_least leb) with (l := l) (rest := rest); trivial.
      - intros a b. unfold leb. rewrite !Z.leb_le. lia.
      - intros a b c. unfold leb. rewrite !Z.leb_le. lia. }
    assert (Hx : In x l).
    { apply (order_by_In leb). rewrite E. now left. }
    destruct x as [k c]. apply scanned_rows_In in Hx as [j [Hj Hk]].
    unfold leb in Hleast. simpl in Hleast. apply Z.leb_le in Hleast.
    unfold f in Hk. simpl in Hk.
    destruct (Nat.eqb j i) eqn:Eji; [|lia].
    apply Nat.eqb_eq in Eji. subst j.
    simpl. replace c with cafe by congruence. reflexivity.
Qed.

(** ** More on the formatter and the search *)

(** In a projection the two URL members are never null and never empty:
    each is a non-empty string, "N/A" standing in for a missing URL. *)
Theorem get_cafe_response_urls_never_empty (cafe : Cafe) :
  exists map_link img_link,
    dict_get "map_url" (get_cafe_response cafe) = Some (JStr map_link) /\
    dict_get "img_url" (get_cafe_response cafe) = Some (JStr img_link) /\
    map_link <> "" /\ img_link <> "" /\
    (map_link = "N/A" \/ map_url cafe = Some map_link) /\
    (img_link = "N/A" \/ img_url cafe = Some img_link).
Proof.
  exists (Py.or_else (map_url cafe) "N/A"), (Py.or_else (img_url cafe) "N/A").
  split; [reflexivity|]. split; [reflexivity|].
  destruct (map_url cafe) as [[|c u]|], (img_url cafe) as [[|d v]|]; simpl;
    repeat split; try discriminate; auto.
Qed.

(** Whatever GET /api/search lists, GET /api/all lists too. *)
Theorem search_results_are_listed_by_all (req : request) (tbl : list Cafe)
    (items : list json) :
  search_cafe req tbl = (jsonify [("cafes", JArr items)], 200) ->
  exists all_items,
    all_cafes tbl = (jsonify [("cafes", JArr all_items)], 200) /\
    incl items all_items.
Proof.
  unfold search_cafe.
  set (found := order_by by_name (filter_by_location (get "loc" (args req)) tbl)).
  intros H. eexists. split; [reflexivity|].
  assert (Hitems : items = map (fun cafe => JObj (get_cafe_response cafe)) found).
  { destruct found; [discriminate|]. now inversion H. }
  rewrite Hitems. intros item Hin.
  apply in_map_iff in Hin as [r [<- Hr]].
  apply (in_map (fun cafe => JObj (get_cafe_response cafe))).
  apply order_by_In. unfold found in Hr.
  apply (proj1 (order_by_In by_name _ _)) in Hr.
  unfold filter_by_location in Hr. now apply filter_In in Hr.
Qed.

(** ** Search as a filter of the full listing *)

Lemma string_compare_trans (s1 s2 s3 : string) :
  String.compare s1 s2 <> Gt -> String.compare s2 s3 <> Gt ->
  String.compare s1 s3 <> Gt.
Proof.
  revert s2 s3. induction s1 as [|c1 s1 IH]; intros [|c2 s2] [|c3 s3]; simpl;
    try congruence.
  destruct (Ascii.compare c1 c2) eqn:E12; try congruence;
    destruct (Ascii.compare c2 c3) eqn:E23; try congruence.
  - apply Ascii.compare_eq_iff in E12, E23. subst.
    unfold Ascii.compare. rewrite N.compare_refl. apply IH.
  - apply Ascii.compare_eq_iff in E12. subst. rewrite E23. congruence.
  - apply Ascii.compare_eq_iff in E23. subst. rewrite E12. congruence.
  - unfold Ascii.compare in *. rewrite N.compare_lt_iff in E12, E23.
    replace (N_of_ascii c1 ?= N_of_ascii c3)%N with Lt; [congruence|].
    symmetry. apply N.compare_lt_iff. lia.
Qed.

Lemma string_leb_trans (a b c : string) :
  String.leb a b = true -> String.leb b c = true -> String.leb a c = true.
Proof.
  unfold String.leb. intros H1 H2.
  pose proof (string_compare_trans a b c) as H.
  destruct (String.compare a b); try discriminate;
    destruct (String.compare b c); try discriminate;
    destruct (String.compare a c); trivial; exfalso; apply H; congruence.
Qed.

Lemma by_name_trans (a b c : Cafe) :
  by_name a b = true -> by_name b c = true -> by_name a c = true.
Proof.
  unfold by_name, optstr_leb.
  destruct (name a), (name b), (name c); trivial; try discriminate.
  apply string_leb_trans.
Qed.

Section FilterOrdered.
Context {A : Type} (leb : A -> A -> bool) (p : A -> bool).
Hypothesis leb_total : forall x y, leb x y = true \/ leb y x = true.
Hypothesis leb_trans : forall x y z, leb x y = true -> leb y z = true -> leb x z = true.

Lemma insert_row_first (x : A) (l : list A) :
  (forall z, In z l -> leb x z = true) -> insert_row leb x l = x :: l.
Proof.
  destruct l as [|y rest]; simpl; trivial.
  intros H. now rewrite (H y) by now left.
Qed.

Lemma filter_insert_row (x : A) (l : list A) :
  StronglySorted (fun a b => leb a b = true) l ->
  filter p (insert_row leb x l)
  = if p x then insert_row leb x (filter p l) else filter p l.
Proof.
  induction 1 as [|y rest Hs IH Hall]; simpl.
  - now destruct (p x).
  - destruct (leb x y) eqn:E; simpl.
    + destruct (p x); trivial.
      symmetry. apply insert_row_first.
      intros z Hz.
      assert (Hz' : In z (y :: rest)).
      { apply (proj1 (filter_In p z (y :: rest))). exact Hz. }
      destruct Hz' as [<- | Hz']; trivial.
      rewrite Forall_forall in Hall. eapply leb_trans; eauto.
    + rewrite IH. destruct (p y), (p x); simpl; trivial. now rewrite E.
Qed.

(** Filtering an ordered result gives the ordered result of the filter. *)
Lemma filter_order_by (l : list A) :
  filter p (order_by leb l) = order_by leb (filter p l).
Proof.
  induction l as [|x rest IH]; simpl; trivial.
  rewrite filter_insert_row.
  - rewrite IH. now destruct (p x).
  - apply Sorted_StronglySorted; [intros a b c; apply leb_trans|].
    now apply order_by_sorted.
Qed.

End FilterOrdered.

(** GET /api/search lists the rows GET /api/all lists, restricted to those
    whose location is the [loc] given and kept in the same order; when none
    is left it answers with the Not-Found response. *)
Theorem search_filters_the_full_listing (req : request) (tbl : list Cafe) :
  exists rows,
    all_cafes tbl = listing rows /\
    search_cafe req tbl
    = many_responses
        (PyList (filter (fun r => Py.eqb (location r) (get "loc" (args req))) rows)).
Proof.
  exists (order_by by_name tbl). split; [reflexivity|].
  unfold search_cafe, filter_by_location.
  now rewrite (filter_order_by by_name _ by_name_total by_name_trans).
Qed.

(** ** What an unsuccessful write leaves behind *)

(** The table changes only under a success response: whenever a write
    handler answers anything else, or lets an exception out, the table is
    what it was. *)
Theorem writes_change_table_only_on_success (env : environ) (req : request)
    (cafe_id : Z) (tbl : list Cafe) :
  let added := dispatch (add_cafe env req) (fresh tbl) in
  let updated := dispatch (update_price env req cafe_id) (fresh tbl) in
  let deleted := dispatch (delete_cafe env req cafe_id) (fresh tbl) in
  (fst added <> Responded success_response -> table (snd added) = tbl) /\
  (fst updated <> Responded success_response -> table (snd updated) = tbl) /\
  (fst deleted <> Responded success_response -> table (snd deleted) = tbl).
Proof.
  cbv zeta. split; [|split].
  - destruct (add_cafe_table env req tbl) as [[Hok _] | [_ Htbl]];
      [contradiction | trivial].
  - rewrite update_price_run.
    destruct (negb _); [reflexivity|].
    destruct (db_get tbl cafe_id); [|reflexivity].
    destruct (commit_fault env); [reflexivity|].
    cbn [fst]. contradiction.
  - rewrite delete_cafe_run.
    destruct (_ || _); [reflexivity|].
    destruct (db_get tbl cafe_id); [|reflexivity].
    destruct (commit_fault env); [reflexivity|].
    cbn [fst]. contradiction.
Qed.

(** When the secret is unset or empty, DELETE /api/report-closed refuses
    every request, whatever key it carries, and deletes nothing. *)
Theorem delete_cafe_disabled_without_secret (env : environ) (req : request)
    (cafe_id : Z) (tbl : list Cafe) :
  Py.truthy (SECRET_API env) = false ->
  dispatch (delete_cafe env req cafe_id) (fresh tbl)
  = (Responded (jsonify [("error", JObj [("error", JStr "Not Authorized to perform this action.")])], 403),
     fresh tbl).
Proof.
  intros Hsecret. rewrite delete_cafe_run.
  replace (negb _ || negb _) with true; [reflexivity|].
  symmetry. apply orb_true_iff.
  destruct (Py.truthy (get "api-key" (args req))) eqn:Hkey; [right | now left].
  apply negb_true_iff, not_true_iff_false. intros E.
  apply optstr_eqb_eq in E. congruence.
Qed.

(** ** The constraints hold for good *)

Lemma apply_change_unique (ch : change) (tbl tbl' : list Cafe) :
  unique_keys tbl -> apply_change ch tbl = inr tbl' -> unique_keys tbl'.
Proof.
  intros [Hid Hname]. destruct ch as [obj|pk v|pk]; simpl.
  - destruct (first_null obj); [discriminate|].
    destruct (match id obj with Some k => _ | None => false end) eqn:Hpk;
      [discriminate|].
    destruct (existsb _ tbl) eqn:Hdup; [discriminate|].
    intros H. injection H as <-.
    unfold unique_keys. rewrite !map_app. cbn [map id name set_id].
    split; apply NoDup_app; trivial; try (constructor; [simpl; tauto | constructor]).
    + intros k Hk [<- | []]. apply in_map_iff in Hk as [r [Hr Hin]].
      destruct (id obj) as [k|].
      * assert (existsb (fun r => Py.int_eqb (id r) (Some k)) tbl = true).
        { apply existsb_exists. exists r. split; trivial. now apply int_eqb_eq. }
        congruence.
      * now apply next_rowid_fresh in Hin.
    + intros n Hn [<- | []]. apply in_map_iff in Hn as [r [Hr Hin]].
      assert (existsb (fun r => Py.eqb (name r) (name obj)) tbl = true).
      { apply existsb_same_name. eauto. }
      congruence.
  - intros H. injection H as <-. unfold unique_keys.
    destruct (map_id_update pk v tbl) as [-> ->]. now split.
  - intros H. injection H as <-. split; now apply NoDup_map_filter.
Qed.

(** A write handler leaves the table as it was or as one statement made it. *)
Lemma write_table_cases (env : environ) (req : request) (cafe_id : Z)
    (tbl : list Cafe) :
  let changed := fun tbl' => tbl' = tbl \/ exists ch, apply_change ch tbl = inr tbl' in
  changed (table (snd (dispatch (add_cafe env req) (fresh tbl)))) /\
  changed (table (snd (dispatch (update_price env req cafe_id) (fresh tbl)))) /\
  changed (table (snd (dispatch (delete_cafe env req cafe_id) (fresh tbl)))).
Proof.
  cbv zeta. split; [|split].
  - destruct (add_cafe_table env req tbl) as [[_ [-> [Hnull Hdup]]] | [_ ->]];
      [right | now left].
    exists (Insert (new_cafe_check req)). cbn [apply_change].
    rewrite Hnull. change (id (new_cafe_check req)) with (@None Z).
    cbv iota beta zeta. now rewrite Hdup.
  - rewrite update_price_run.
    destruct (negb _); [now left|].
    destruct (db_get tbl cafe_id); [|now left].
    destruct (commit_fault env); [now left|].
    right. now exists (SetCoffeePrice (Some cafe_id) (get "new_price" (args req))).
  - rewrite delete_cafe_run.
    destruct (_ || _); [now left|].
    destruct (db_get tbl cafe_id); [|now left].
    destruct (commit_fault env); [now left|].
    right. now exists (Delete (Some cafe_id)).
Qed.

(** From a table that satisfies its constraints (every row has a primary
    key and no NULL in a required column, ids and names occur once), no
    sequence of write requests, however the driver behaves, leads to a table
    that does not. *)
Theorem constraints_hold_for_good (start tbl : list Cafe) :
  Forall stored start -> unique_keys start ->
  reachable_from start tbl ->
  Forall stored tbl /\ unique_keys tbl.
Proof.
  intros Hst Huk Hreach.
  assert (Hstep : forall t t',
             Forall stored t /\ unique_keys t ->
             (t' = t \/ exists ch, apply_change ch t = inr t') ->
             Forall stored t' /\ unique_keys t').
  { intros t t' [H1 H2] [-> | [ch Hch]]; [now split|].
    split; [eapply apply_change_stored | eapply apply_change_unique]; eauto. }
  induction Hreach as [|env req t _ IH|env req cafe_id t _ IH|env req cafe_id t _ IH].
  - now split.
  - apply (Hstep t); trivial. apply (write_table_cases env req 0 t).
  - apply (Hstep t); trivial. apply (write_table_cases env req cafe_id t).
  - apply (Hstep t); trivial. apply (write_table_cases env req cafe_id t).
Qed.

(** The empty table of a new database, after an add, a price update and a
    refused delete. *)
Lemma constraints_hold_for_good_witness :
  let t1 := table (snd (dispatch (add_cafe example_env example_add_request) (fresh []))) in
  let t2 := table (snd (dispatch (update_price example_env price_request 1) (fresh t1))) in
  let t3 := table (snd (dispatch (delete_cafe example_env no_parameters 1) (fresh t2))) in
  Forall stored t3 /\ unique_keys t3.
Proof.
  cbv zeta.
  apply (constraints_hold_for_good []).
  - constructor.
  - split; constructor.
  - apply reach_delete, reach_update, reach_add, reach_start.
Defined.

(** ** Runs of the further properties *)


(** The example rows have distinct ids and names. *)
Lemma examples_unique : unique_keys [cafe_a; cafe_b].
Proof.
  split; (constructor; [intros [H | []]; discriminate|]);
    (constructor; [intros [] | constructor]).
Defined.

Lemma writes_preserve_unique_keys_witness :
  unique_keys (table (snd (dispatch (add_cafe example_env example_add_request)
                             (fresh [cafe_a; cafe_b])))).
Proof.
  apply (writes_preserve_unique_keys example_env example_add_request 1
           [cafe_a; cafe_b] examples_unique).
Defined.

Lemma writes_preserve_stored_witness :
  Forall stored (table (snd (dispatch (add_cafe example_env example_add_request)
                               (fresh [cafe_a; cafe_b])))).
Proof.
  apply (writes_preserve_stored example_env example_add_request 1
           [cafe_a; cafe_b] examples_stored).
Defined.

(** Deleting row 1 a second time. *)
Lemma delete_cafe_twice_is_404_witness :
  dispatch (delete_cafe example_env authorised_delete_request 1) (fresh [cafe_b])
  = (Aborted 404 "This ID Does not Exist.", fresh [cafe_b]).
Proof.
  apply (delete_cafe_twice_is_404 example_env authorised_delete_request 1
           [cafe_a; cafe_b]
           {| table := [cafe_b]; pending := [];
              log := [CallDelete; CallCommit; CallClose] |}).
  reflexivity.
Defined.

Lemma delete_cafe_removes_one_row_witness :
  exists row,
    db_get [cafe_a; cafe_b] 2 = Some row /\
    Permutation [cafe_a; cafe_b] [row; cafe_a] /\
    length [cafe_a; cafe_b] = 2%nat.
Proof.
  apply (delete_cafe_removes_one_row example_env authorised_delete_request 2
           [cafe_a; cafe_b]
           {| table := [cafe_a]; pending := [];
              log := [CallDelete; CallCommit; CallClose] |}).
  - exact (proj1 examples_unique).
  - reflexivity.
Defined.

(** A complete, new entry refused as "Missing input parameters". *)
Lemma add_cafe_classifies_by_text_only_witness :
  dispatch (add_cafe quoting_fault_env example_add_request) (fresh [cafe_a; cafe_b])
  = (Responded (jsonify [("error", JObj [("error", JStr "Missing input parameters")])], 400),
     {| table := [cafe_a; cafe_b]; pending := [];
        log := [CallAdd; CallCommit; CallRollback; CallClose] |}).
Proof.
  apply (add_cafe_classifies_by_text_only quoting_fault_env example_add_request
           [cafe_a; cafe_b] "audit log: " ": audit.who").
  - reflexivity.
  - intros r [<- | [<- | []]]; discriminate.
  - reflexivity.
Defined.

(** The second row picked. *)
Lemma random_cafe_reaches_every_row_witness :
  random_cafe (favouring 1 example_env) [cafe_a; cafe_b]
  = (jsonify [("cafe", JObj (get_cafe_response cafe_b))], 200).
Proof.
  apply (random_cafe_reaches_every_row example_env [cafe_a; cafe_b] 1 cafe_b).
  reflexivity.
Defined.

Lemma search_results_are_listed_by_all_witness :
  exists all_items,
    all_cafes [cafe_b; cafe_a] = (jsonify [("cafes", JArr all_items)], 200) /\
    incl [JObj (get_cafe_response cafe_a); JObj (get_cafe_response cafe_b)] all_items.
Proof.
  apply (search_results_are_listed_by_all search_city_a [cafe_b; cafe_a]).
  reflexivity.
Defined.

(** A refused duplicate leaves the two rows. *)
Lemma writes_change_table_only_on_success_witness :
  table (snd (dispatch (add_cafe example_env duplicate_add_request)
                (fresh [cafe_a; cafe_b])))
  = [cafe_a; cafe_b].
Proof.
  apply (writes_change_table_only_on_success example_env duplicate_add_request 1
           [cafe_a; cafe_b]).
  discriminate.
Defined.

(** The right key of another deployment against an empty secret. *)
Lemma delete_cafe_disabled_without_secret_witness :
  dispatch (delete_cafe empty_secret_env authorised_delete_request 1)
           (fresh [cafe_a; cafe_b])
  = (Responded (jsonify [("error", JObj [("error", JStr "Not Authorized to perform this action.")])], 403),
     fresh [cafe_a; cafe_b]).
Proof.
  apply (delete_cafe_disabled_without_secret empty_secret_env
           authorised_delete_request 1 [cafe_a; cafe_b]).
  reflexivity.
Defined.
